(** * A model of [src/main.py] (ai_paper_summarizer)

    Shallow embedding of [extract_sections], [summarize_text] and the
    report-building loop of [main].  Strings are Rocq [string]s (one
    ASCII character per Python code point); the section dictionary is a
    [gmap string string].  The two [re] patterns of the source are run by
    a small backtracking matcher that follows the left-to-right,
    greedy/lazy search order of Python's [re] module.  Console output
    ([print]) is not modelled. *)

From Stdlib Require Import Ascii String.
From stdpp Require Import base gmap strings list fin_maps.

Open Scope string_scope.
Open Scope nat_scope.

(* ------------------------------------------------------------------ *)
(** ** Character classes and [str] methods *)

Definition code (c : ascii) : nat := nat_of_ascii c.

(** Python's [str.isspace] / [\s] restricted to ASCII: [\t\n\v\f\r],
    the separators [\x1c]..[\x1f], and the space. *)
Definition is_space (c : ascii) : bool :=
  let n := code c in
  ((9 <=? n) && (n <=? 13)) || ((28 <=? n) && (n <=? 32)).

Definition is_digit (c : ascii) : bool :=
  let n := code c in (48 <=? n) && (n <=? 57).

Definition is_upper (c : ascii) : bool :=
  let n := code c in (65 <=? n) && (n <=? 90).

Definition is_lower (c : ascii) : bool :=
  let n := code c in (97 <=? n) && (n <=? 122).

Definition is_alpha (c : ascii) : bool := is_upper c || is_lower c.

Definition is_roman (c : ascii) : bool :=
  existsb (fun d => Ascii.eqb c d) ["I"; "V"; "X"; "L"; "C"; "D"; "M"]%char.

Definition to_lower (c : ascii) : ascii :=
  if is_upper c then ascii_of_nat (code c + 32) else c.

Definition to_upper (c : ascii) : ascii :=
  if is_lower c then ascii_of_nat (code c - 32) else c.

(** [str.lower] *)
Fixpoint lower (s : string) : string :=
  match s with
  | EmptyString => EmptyString
  | String c r => String (to_lower c) (lower r)
  end.

(** [str.replace(a, b)] for single characters [a], [b]. *)
Fixpoint replace_char (a b : ascii) (s : string) : string :=
  match s with
  | EmptyString => EmptyString
  | String c r => String (if Ascii.eqb c a then b else c) (replace_char a b r)
  end.

(** [str.capitalize]: first character upper-cased, the rest lower-cased. *)
Definition capitalize (s : string) : string :=
  match s with
  | EmptyString => EmptyString
  | String c r => String (to_upper c) (lower r)
  end.

Fixpoint lstrip (s : string) : string :=
  match s with
  | EmptyString => EmptyString
  | String c r => if is_space c then lstrip r else s
  end.

Definition rev_str (s : string) : string :=
  string_of_list_ascii (List.rev (list_ascii_of_string s)).

(** [str.strip()] with no argument. *)
Definition strip (s : string) : string := rev_str (lstrip (rev_str (lstrip s))).

(** [needle in haystack] for strings. *)
Fixpoint str_contains (needle hay : string) : bool :=
  String.prefix needle hay ||
  match hay with
  | EmptyString => false
  | String _ r => str_contains needle r
  end.

(** [s.split('\n')]: always at least one piece. *)
Fixpoint split_nl (s : string) : list string :=
  match s with
  | EmptyString => [EmptyString]
  | String c r =>
      if Ascii.eqb c "010"%char then EmptyString :: split_nl r
      else match split_nl r with
           | [] => [String c EmptyString]
           | l :: ls => String c l :: ls
           end
  end.

(** [s[a:b]] for [0 <= a <= b]. *)
Definition slice (a b : nat) (s : string) : string := substring a (b - a) s.

(** [" ".join(parts)] *)
Fixpoint join_space (parts : list string) : string :=
  match parts with
  | [] => EmptyString
  | [p] => p
  | p :: ps => p +:+ " " +:+ join_space ps
  end.

(* ------------------------------------------------------------------ *)
(** ** A backtracking matcher for the two patterns of [extract_sections] *)

Module Rx.

Inductive re : Type :=
  | Eps                       (* empty pattern *)
  | Cls (p : ascii -> bool)   (* one character satisfying p *)
  | Bol                       (* ^ under re.MULTILINE *)
  | Seq (a b : re)
  | Alt (a b : re)            (* a|b, left alternative first *)
  | StarG (a : re)            (* a*  greedy *)
  | StarL (a : re)            (* a*? lazy *)
  | Grp (n : nat) (a : re).   (* capturing group n *)

Definition plus (a : re) : re := Seq a (StarG a).
Definition opt (a : re) : re := Alt a Eps.
Definition chr (c : ascii) : re := Cls (fun d => Ascii.eqb c d).
(** A literal under re.IGNORECASE (ASCII case folding). *)
Definition ichr (c : ascii) : re :=
  Cls (fun d => Ascii.eqb (to_lower c) (to_lower d)).
Fixpoint istr (s : string) : re :=
  match s with
  | EmptyString => Eps
  | String c r => Seq (ichr c) (istr r)
  end.

(** Captures: group number and span, the most recent first. *)
Definition caps := list (nat * (nat * nat)).
Definition result := option (nat * caps).

Section Matcher.
Variable s : string.

Definition bol_at (i : nat) : bool :=
  match i with
  | O => true
  | S j => match String.get j s with
           | Some c => Ascii.eqb c "010"%char
           | None => false
           end
  end.

(** [mt r i cs k]: match [r] at position [i]; on success pass the end
    position and the captures to the continuation [k]; backtrack into
    [r] when [k] fails.  Repetitions stop on an empty iteration; the
    fuel [S (length s)] bounds the number of non-empty iterations. *)
Fixpoint mt (r : re) (i : nat) (cs : caps) (k : nat -> caps -> result)
  {struct r} : result :=
  match r with
  | Eps => k i cs
  | Cls p =>
      match String.get i s with
      | Some c => if p c then k (S i) cs else None
      | None => None
      end
  | Bol => if bol_at i then k i cs else None
  | Seq a b => mt a i cs (fun j cs' => mt b j cs' k)
  | Alt a b =>
      match mt a i cs k with
      | Some x => Some x
      | None => mt b i cs k
      end
  | StarG a =>
      (fix loop (n i : nat) (cs : caps) {struct n} : result :=
         match n with
         | O => k i cs
         | S n' =>
             match mt a i cs (fun j cs' => if i <? j then loop n' j cs' else None) with
             | Some x => Some x
             | None => k i cs
             end
         end) (S (String.length s)) i cs
  | StarL a =>
      (fix loop (n i : nat) (cs : caps) {struct n} : result :=
         match n with
         | O => k i cs
         | S n' =>
             match k i cs with
             | Some x => Some x
             | None => mt a i cs (fun j cs' => if i <? j then loop n' j cs' else None)
             end
         end) (S (String.length s)) i cs
  | Grp n a => mt a i cs (fun j cs' => k j ((n, (i, j)) :: cs'))
  end.

Definition match_at (r : re) (i : nat) : result :=
  mt r i [] (fun j cs => Some (j, cs)).

(** A match: start, end, captures. *)
Record rmatch := { mstart : nat; mend : nat; mcaps : caps }.

(** [r.search(s, pos)]: the leftmost start position [>= pos] that matches. *)
Fixpoint search_from (fuel : nat) (r : re) (pos : nat) : option rmatch :=
  match fuel with
  | O => None
  | S f =>
      match match_at r pos with
      | Some (j, cs) => Some {| mstart := pos; mend := j; mcaps := cs |}
      | None => if pos <? String.length s then search_from f r (S pos) else None
      end
  end.

Definition search (r : re) : option rmatch :=
  search_from (S (String.length s)) r 0.

(** [r.finditer(s)]: successive leftmost matches, each search resuming at
    the end of the previous match (one further on after an empty match). *)
Fixpoint finditer_from (fuel : nat) (r : re) (pos : nat) : list rmatch :=
  match fuel with
  | O => []
  | S f =>
      if String.length s <? pos then []
      else match search_from (S (String.length s)) r pos with
           | None => []
           | Some m =>
               m :: finditer_from f r
                      (if mend m =? mstart m then S (mend m) else mend m)
           end
  end.

Definition finditer (r : re) : list rmatch :=
  finditer_from (S (S (String.length s))) r 0.

(** [m.group(n)] when the group took part in the match. *)
Definition group (m : rmatch) (n : nat) : option string :=
  match List.find (fun e => Nat.eqb (fst e) n) (mcaps m) with
  | Some (_, (a, b)) => Some (slice a b s)
  | None => None
  end.

End Matcher.

End Rx.

(* ------------------------------------------------------------------ *)
(** ** [extract_sections] *)

Import Rx.

Definition sp : re := Cls is_space.                       (* \s *)
Definition any_char : re := Cls (fun _ => true).          (* [\s\S] *)

(** [^\s*(\d{1,2}|[IVXLCDM]+)\.?\s+([A-Z][a-zA-Z\s]+)] under re.MULTILINE. *)
Definition heading_re : re :=
  Seq Bol
  (Seq (StarG sp)
  (Seq (Grp 1 (Alt (Seq (Cls is_digit) (opt (Cls is_digit))) (plus (Cls is_roman))))
  (Seq (opt (chr "."))
  (Seq (plus sp)
       (Grp 2 (Seq (Cls is_upper) (plus (Cls (fun c => is_alpha c || is_space c))))))))).

(** [Abstract\n([\s\S]*?)(1\.?\s+Introduction)] under re.IGNORECASE. *)
Definition abstract_re : re :=
  Seq (istr "Abstract")
  (Seq (chr "010")
  (Seq (Grp 1 (StarL any_char))
       (Grp 2 (Seq (chr "1") (Seq (opt (chr ".")) (Seq (plus sp) (istr "Introduction"))))))).

(** [matches = list(pattern.finditer(text))] *)
Definition heading_matches (text : string) : list rmatch := finditer text heading_re.

(** [match.group(2).strip().lower().replace(" ", "_")]; group 2 is not
    optional in [heading_re], so it is set in every match. *)
Definition section_title (text : string) (m : rmatch) : string :=
  replace_char " " "_" (lower (strip (default "" (group text m 2)))).

(** [matches[i+1].start() if i + 1 < len(matches) else len(text)] *)
Definition end_index (text : string) (ms : list rmatch) (i : nat) : nat :=
  match ms !! S i with
  | Some m' => mstart m'
  | None => String.length text
  end.

(** [text[start_index:end_index].strip()] *)
Definition section_content (text : string) (ms : list rmatch) (i : nat) (m : rmatch) : string :=
  strip (slice (mend m) (end_index text ms i) text).

(** The if/elif chain: the key a normalised heading is stored under. *)
Definition classify (t : string) : option string :=
  if str_contains "introduction" t then Some "introduction"
  else if str_contains "method" t || str_contains "methodology" t then Some "method"
  else if str_contains "result" t || str_contains "experiment" t then Some "results"
  else if str_contains "conclusion" t || str_contains "discussion" t then Some "conclusion"
  else if str_contains "related_work" t || str_contains "literature_review" t then Some "literature_review"
  else if str_contains "reference" t then Some "references"
  else None.

(** [enumerate(l)] *)
Definition enumerate {A} (l : list A) : list (nat * A) := imap (fun i x => (i, x)) l.

(** One iteration of [for i, match in enumerate(matches)]. *)
Definition heading_step (text : string) (ms : list rmatch)
    (secs : gmap string string) (im : nat * rmatch) : gmap string string :=
  let '(i, m) := im in
  match classify (section_title text m) with
  | Some k => <[k := section_content text ms i m]> secs
  | None => secs
  end.

Definition heading_loop (text : string) (ms : list rmatch) (secs : gmap string string)
  : gmap string string :=
  foldl (heading_step text ms) secs (enumerate ms).

(** [extract_sections(text)]; [None] stands for an exception, here only
    the [IndexError] that [lines[0]] would raise on an empty split. *)
Definition extract_sections (text : string) : option (gmap string string) :=
  let secs : gmap string string := {[ "raw_text" := text ]} in
  match split_nl text !! 0 with
  | None => None
  | Some line0 =>
      let secs := <["title" := strip line0]> secs in
      let secs :=
        match search text abstract_re with
        | Some am => <["abstract" := strip (default "" (group text am 1))]> secs
        | None => secs
        end in
      Some (heading_loop text (heading_matches text) secs)
  end.

Definition c9_text : string :=
  "Paper Title" +:+ String "010" "Abstract" +:+ String "010" "This is the abstract."
  +:+ String "010" "1. Introduction" +:+ String "010" "Intro text here.".


(* ------------------------------------------------------------------ *)
(** ** The model interaction: a trace of loads and chunk calls *)

(** What the program asks of the summarization library: loading the
    pipeline ([pipeline("summarization", ...)]) and running it on one chunk. *)
Inductive event : Type :=
  | Load
  | Summarize (chunk : string).

(** State (the trace so far) and failure (an uncaught exception). *)
Definition M (A : Type) : Type := list event -> option (A * list event).

Definition ret {A} (x : A) : M A := fun tr => Some (x, tr).
Definition bind {A B} (m : M A) (f : A -> M B) : M B :=
  fun tr => match m tr with
            | Some (x, tr') => f x tr'
            | None => None
            end.
Definition raise {A} : M A := fun _ => None.
Definition emit (e : event) : M unit := fun tr => Some (tt, (tr ++ [e])%list).
Definition lift {A} (o : option A) : M A :=
  match o with Some x => ret x | None => raise end.

Notation "x <- m ;; k" := (bind m (fun x => k))
  (at level 100, m at next level, right associativity).
Notation "m ;;; k" := (bind m (fun _ => k))
  (at level 100, right associativity).

Definition nl : string := String "010" EmptyString.

(** The chunk size the code always uses ([max_chunk_length = 1024]). *)
Definition default_chunk : nat := 1024.

(** [range(start, stop, step)] for [step > 0]. *)
Fixpoint range_from (fuel i stop step : nat) : list nat :=
  match fuel with
  | O => []
  | S f => if i <? stop then i :: range_from f (i + step) stop step else []
  end.

Definition py_range (start stop step : nat) : list nat :=
  range_from (stop - start) start stop step.

(** [[text[i:i+C] for i in range(0, len(text), C)]] *)
Definition text_chunks (text : string) (C : nat) : list string :=
  map (fun i => slice i (i + C) text) (py_range 0 (String.length text) C).

(** The same chunking on the list of characters, by recursion on the
    list (used in the proofs about [text_chunks]). *)
Fixpoint chunks_fuel {A} (C fuel : nat) (l : list A) : list (list A) :=
  match fuel with
  | O => []
  | S f =>
      match l with
      | [] => []
      | _ :: _ => take C l :: chunks_fuel C f (drop C l)
      end
  end.

Section Run.

(** The outcome of [pipeline("summarization", model=..., revision=...)]:
    the exception message, or the loaded pipeline, which maps a chunk,
    [max_length] and [min_length] to [summary[0]['summary_text']]. *)
Variable pipeline_result : string + (string -> Z -> Z -> string).

(** [for chunk in text_chunks: summary_parts.append(...)], then
    [" ".join(summary_parts)]; [summary_parts] is kept reversed. *)
Fixpoint summarize_chunks (summarizer : string -> Z -> Z -> string)
    (min_length max_length : Z) (text_chunks summary_parts : list string) : M string :=
  match text_chunks with
  | [] => ret (join_space (rev summary_parts))
  | chunk :: rest =>
      emit (Summarize chunk) ;;;
      summarize_chunks summarizer min_length max_length rest
        (summarizer chunk max_length min_length :: summary_parts)
  end.

(** [summarize_text(text, min_length, max_length, max_chunk_length)].
    [range] with step 0 raises [ValueError]. *)
Definition summarize_text (text : string) (min_length max_length : Z)
    (max_chunk_length : nat) : M string :=
  emit Load ;;;
  match pipeline_result with
  | inl e => ret ("Failed to load model. Error: " +:+ e)
  | inr summarizer =>
      if max_chunk_length =? 0 then raise
      else
        summarize_chunks summarizer min_length max_length
          (text_chunks text max_chunk_length) []
  end.

Definition contribution_fallback : string :=
  "Could not determine contribution (abstract or conclusion not found).".

(** [if not content]: [None] or the empty string. *)
Definition falsy (content : option string) : bool :=
  match content with
  | None => true
  | Some s => String.eqb s ""
  end.

Definition in_list (x : string) (l : list string) : bool := existsb (String.eqb x) l.

(** One iteration of [for section_name in requested_sections], from the
    report built so far to the extended report. *)
Definition process_section (sections : gmap string string) (min_length max_length : Z)
    (report_content : string) (section_name : string) : M string :=
  let content := sections !! section_name in
  if falsy content && negb (in_list section_name ["summary"; "contribution"]) then
    ret report_content
  else
    let report_content := report_content +:+ "## "
      +:+ capitalize (replace_char "_" " " section_name) +:+ nl in
    if in_list section_name ["title"; "abstract"; "references"] then
      ret (report_content +:+ default "None" content +:+ nl +:+ nl)
    else if String.eqb section_name "summary" then
      raw <- lift (sections !! "raw_text") ;;
      summary <- summarize_text raw min_length max_length default_chunk ;;
      ret (report_content +:+ summary +:+ nl +:+ nl)
    else if String.eqb section_name "contribution" then
      let contrib_text := default "" (sections !! "abstract") +:+ " "
                          +:+ default "" (sections !! "conclusion") in
      if negb (String.eqb (strip contrib_text) "") then
        contribution <- summarize_text contrib_text min_length max_length default_chunk ;;
        ret (report_content +:+ contribution +:+ nl +:+ nl)
      else
        ret (report_content +:+ contribution_fallback +:+ nl +:+ nl)
    else
      (* [content] is a non-empty string here: the guard above skipped
         the other cases. *)
      c <- lift content ;;
      summary <- summarize_text c min_length max_length default_chunk ;;
      ret (report_content +:+ summary +:+ nl +:+ nl).

Fixpoint process_sections (sections : gmap string string) (min_length max_length : Z)
    (report_content : string) (names : list string) : M string :=
  match names with
  | [] => ret report_content
  | n :: ns =>
      r <- process_section sections min_length max_length report_content n ;;
      process_sections sections min_length max_length r ns
  end.

Definition all_sections : list string :=
  ["title"; "abstract"; "summary"; "introduction"; "method"; "results";
   "conclusion"; "contribution"; "literature_review"].

(** [if 'all' in requested_sections: requested_sections = [...]] *)
Definition expand_requested (requested : list string) : list string :=
  if in_list "all" requested then all_sections else requested.

Definition footer : string :=
  "---" +:+ nl +:+ "*Report generated by the AI Paper Deconstructor.*".

(** [main] from the extracted PDF text [full_text] to [final_report]. *)
Definition main_report (full_text : string) (requested : list string)
    (min_length max_length : Z) : M string :=
  sections <- lift (extract_sections full_text) ;;
  report_content <- process_sections sections min_length max_length ""
                      (expand_requested requested) ;;
  ret ("# Analysis of " +:+ default "Unknown Paper" (sections !! "title") +:+ nl +:+ nl
       +:+ report_content +:+ footer).

End Run.

Definition count_loads (tr : list event) : nat :=
  length (List.filter (fun e => match e with Load => true | _ => false end) tr).

Definition heading_keys : list string :=
  ["introduction"; "method"; "results"; "conclusion"; "literature_review"; "references"].

(** The closed set of keys a section map may hold. *)
Definition canonical_keys : list string := ["raw_text"; "title"; "abstract"] ++ heading_keys.

(** [lines[0]] of [text.split('\n')]. *)
Definition first_line (text : string) : string := default "" (head (split_nl text)).

(** The map before the heading loop: [raw_text], [title] and, when the
    abstract pattern matches, [abstract]. *)
Definition base_sections (text : string) : gmap string string :=
  match search text abstract_re with
  | Some am => <["abstract" := strip (default "" (group text am 1))]>
                 (<["title" := strip (first_line text)]> {[ "raw_text" := text ]})
  | None => <["title" := strip (first_line text)]> {[ "raw_text" := text ]}
  end.

(* ------------------------------------------------------------------ *)
(** ** [save_to_markdown] and the whole of [main] *)

(** The files on disk, by path. *)
Abbreviation files := (gmap string string).



Section Main.
Variable pipeline_result : string + (string -> Z -> Z -> string).


End Main.

(** Proof helpers: [lstrip] on a list of characters, and the order of the
    matches returned by [finditer]. *)
Fixpoint drop_spaces (l : list ascii) : list ascii :=
  match l with
  | [] => []
  | c :: r => if is_space c then drop_spaces r else l
  end.

Fixpoint matches_chain (pos : nat) (ms : list rmatch) : Prop :=
  match ms with
  | [] => True
  | m :: rest => pos <= mstart m /\ mstart m <= mend m /\ matches_chain (mend m) rest
  end.

(** A computation that only appends to the trace it is given. *)
Definition appends_only {A} (m : M A) : Prop :=
  forall tr, m tr = match m [] with
                    | Some (x, t) => Some (x, (tr ++ t)%list)
                    | None => None
                    end.

(** Concrete inputs used below. *)
Definition text_two_headings : string :=
  "1. Introduction" +:+ nl +:+ "." +:+ nl +:+ "2. Method" +:+ nl +:+ ".".

Definition text_two_discussions : string :=
  "1. Discussion" +:+ nl +:+ ".a" +:+ nl +:+ "2. Discussion" +:+ nl +:+ ".b".

Ltac decide_string :=
  match goal with |- ?P => apply (bool_decide_unpack P); vm_compute; reflexivity end.

(* ------------------------------------------------------------------ *)
(** ** Lemmas on the section splitter *)

Lemma classify_key t k : classify t = Some k -> k ∈ heading_keys.
Proof.
  unfold classify, heading_keys.
  repeat match goal with
         | |- context [if ?b then _ else _] => destruct b
         end; intros H; inversion H; subst; set_solver.
Qed.

Lemma split_nl_cons s : exists l ls, split_nl s = l :: ls.
Proof.
  destruct s as [|c r]; simpl; [eauto|].
  destruct (Ascii.eqb c "010"); [eauto|].
  destruct (split_nl r); eauto.
Qed.

Section HeadingLoop.
Variables (text : string) (ms : list rmatch).

Lemma heading_loop_other (L : list (nat * rmatch)) secs k :
  (forall i m, (i, m) ∈ L -> classify (section_title text m) <> Some k) ->
  foldl (heading_step text ms) secs L !! k = secs !! k.
Proof.
  revert secs. induction L as [|[i m] L IH]; intros secs HL; simpl; [done|].
  rewrite IH by (intros j m' Hj; apply (HL j m'); set_solver).
  unfold heading_step.
  destruct (classify (section_title text m)) as [k'|] eqn:Hc; [|done].
  rewrite lookup_insert_ne; [done|].
  intros ->. apply (HL i m); [set_solver|done].
Qed.

Lemma heading_loop_not_key secs k :
  k ∉ heading_keys -> heading_loop text ms secs !! k = secs !! k.
Proof.
  intros Hk. apply heading_loop_other.
  intros i m _ Hc. apply Hk, (classify_key _ _ Hc).
Qed.

Lemma heading_loop_is_Some (L : list (nat * rmatch)) secs k :
  is_Some (foldl (heading_step text ms) secs L !! k) <->
  is_Some (secs !! k) \/ exists i m, (i, m) ∈ L /\ classify (section_title text m) = Some k.
Proof.
  revert secs. induction L as [|[i m] L IH]; intros secs; simpl.
  - split; [auto|]. intros [H|(i & m & Hin & _)]; [done|set_solver].
  - rewrite IH. unfold heading_step.
    destruct (classify (section_title text m)) as [k'|] eqn:Hc.
    + destruct (decide (k' = k)) as [->|Hne].
      * rewrite lookup_insert_eq. split; [|eauto].
        intros _. right. exists i, m. split; [set_solver|done].
      * rewrite lookup_insert_ne by done. split.
        -- intros [H|(j & m' & Hin & Hc')]; [auto|right; exists j, m'; split; [set_solver|done]].
        -- intros [H|(j & m' & Hin & Hc')]; [auto|].
           apply elem_of_cons in Hin as [Heq|Hin].
           ++ injection Heq as -> ->. congruence.
           ++ right. eauto.
    + split.
      * intros [H|(j & m' & Hin & Hc')]; [auto|right; exists j, m'; split; [set_solver|done]].
      * intros [H|(j & m' & Hin & Hc')]; [auto|].
        apply elem_of_cons in Hin as [Heq|Hin].
        -- injection Heq as -> ->. congruence.
        -- right. eauto.
Qed.

Lemma elem_of_enumerate i m : (i, m) ∈ enumerate ms <-> ms !! i = Some m.
Proof.
  unfold enumerate. rewrite list_elem_of_lookup. split.
  - intros [j Hj]. apply list_lookup_imap_Some in Hj as (y & Hy & Heq).
    injection Heq as -> ->. done.
  - intros Hm. exists i. apply list_lookup_imap_Some. eauto.
Qed.

(** The value under a heading key is the content of the last heading
    classified into that key. *)
Lemma heading_loop_last secs i m k :
  ms !! i = Some m ->
  classify (section_title text m) = Some k ->
  (forall j m', i < j -> ms !! j = Some m' -> classify (section_title text m') <> Some k) ->
  heading_loop text ms secs !! k = Some (section_content text ms i m).
Proof.
  intros Hm Hc Hlater. unfold heading_loop.
  assert (Hi : enumerate ms !! i = Some (i, m)).
  { unfold enumerate. apply list_lookup_imap_Some. eauto. }
  rewrite <- (take_drop_middle _ _ _ Hi), foldl_app. simpl.
  rewrite heading_loop_other.
  - unfold heading_step. rewrite Hc. apply lookup_insert_eq.
  - intros j m' Hin.
    apply list_elem_of_lookup in Hin as [n Hn].
    rewrite lookup_drop in Hn.
    unfold enumerate in Hn. apply list_lookup_imap_Some in Hn as (y & Hy & Heq).
    injection Heq as -> ->. apply (Hlater (S i + n)); [lia|done].
Qed.

End HeadingLoop.

Lemma extract_sections_base text :
  extract_sections text = Some (heading_loop text (heading_matches text) (base_sections text)).
Proof.
  unfold extract_sections, base_sections, first_line.
  destruct (split_nl_cons text) as (l & ls & ->). simpl.
  destruct (search text abstract_re); reflexivity.
Qed.

Section BaseMap.
Variable text : string.

Lemma base_sections_raw : base_sections text !! "raw_text" = Some text.
Proof.
  unfold base_sections. destruct (search text abstract_re);
    rewrite ?lookup_insert_ne by decide_string; apply lookup_singleton_eq.
Qed.

Lemma base_sections_title : base_sections text !! "title" = Some (strip (first_line text)).
Proof.
  unfold base_sections. destruct (search text abstract_re);
    rewrite ?(lookup_insert_ne _ "abstract") by decide_string; apply lookup_insert_eq.
Qed.

Lemma base_sections_abstract :
  is_Some (base_sections text !! "abstract") <-> is_Some (search text abstract_re).
Proof.
  unfold base_sections. destruct (search text abstract_re).
  - rewrite lookup_insert_eq. split; eauto.
  - rewrite lookup_insert_ne, lookup_singleton_ne by decide_string.
    split; intros [? H]; discriminate.
Qed.

Lemma base_sections_keys k :
  is_Some (base_sections text !! k) -> k ∈ ["raw_text"; "title"; "abstract"].
Proof.
  unfold base_sections. intros [v Hv].
  destruct (search text abstract_re);
    repeat (apply lookup_insert_Some in Hv as [[<- _]|[_ Hv]]; [set_solver|]);
    apply lookup_singleton_Some in Hv as [<- _]; set_solver.
Qed.

End BaseMap.


(* ------------------------------------------------------------------ *)
(** ** Claims on the section splitter *)

(** C3 (as stated, refuted): "every key other than [raw_text] is present
    only if a heading was found for it" fails on the empty text, whose
    map holds [title] although no heading is detected. *)
Lemma extract_sections_title_without_heading :
  ~ (forall text secs k,
       extract_sections text = Some secs -> k <> "raw_text" -> is_Some (secs !! k) ->
       exists i m, heading_matches text !! i = Some m /\ classify (section_title text m) = Some k).
Proof.
  intros H.
  destruct (H "" _ "title" (extract_sections_base "")) as (i & m & Hm & _).
  - discriminate.
  - vm_compute. eauto.
  - vm_compute in Hm. destruct i; discriminate.
Qed.

(** C3 (amended): for every input the splitter returns a map whose keys
    lie in the fixed canonical set; [raw_text] is the whole input and
    [title] its trimmed first line, both always present; [abstract] is
    present exactly when the abstract pattern matches; each heading key
    is present exactly when some detected heading is classified into it. *)
Theorem extract_sections_keys text :
  exists secs, extract_sections text = Some secs /\
    secs !! "raw_text" = Some text /\
    secs !! "title" = Some (strip (first_line text)) /\
    (is_Some (secs !! "abstract") <-> is_Some (search text abstract_re)) /\
    (forall k, k ∈ heading_keys ->
       (is_Some (secs !! k) <->
        exists i m, heading_matches text !! i = Some m /\
                    classify (section_title text m) = Some k)) /\
    (forall k, is_Some (secs !! k) -> k ∈ canonical_keys).
Proof.
  eexists. split; [apply extract_sections_base|].
  split; [rewrite heading_loop_not_key by decide_string; apply base_sections_raw|].
  split; [rewrite heading_loop_not_key by decide_string; apply base_sections_title|].
  split; [rewrite heading_loop_not_key by decide_string; apply base_sections_abstract|].
  split.
  - intros k Hk. unfold heading_loop. rewrite heading_loop_is_Some.
    assert (Hnone : base_sections text !! k = None).
    { destruct (base_sections text !! k) eqn:E; [|done].
      apply (mk_is_Some _ _), base_sections_keys in E.
      exfalso. revert Hk E. unfold heading_keys.
      rewrite !elem_of_cons, elem_of_nil.
      intros Hk E. repeat destruct E as [->|E]; [..|done];
        repeat destruct Hk as [Hk|Hk]; try done; discriminate. }
    rewrite Hnone. split.
    + intros [[? ?]|(i & m & Hin & Hc)]; [discriminate|].
      apply elem_of_enumerate in Hin. eauto.
    + intros (i & m & Hm & Hc). right. exists i, m.
      rewrite elem_of_enumerate. auto.
  - intros k Hk. unfold canonical_keys. apply elem_of_app.
    destruct (decide (k ∈ heading_keys)) as [Hh|Hh]; [by right|left].
    rewrite heading_loop_not_key in Hk by done.
    by apply base_sections_keys in Hk.
Qed.

(** C4: when two or more detected headings are classified into the same
    key, the value stored under that key is the content of the last of
    them (last write wins). *)
Theorem extract_sections_last_wins text secs i j mi mj k :
  extract_sections text = Some secs ->
  heading_matches text !! i = Some mi ->
  heading_matches text !! j = Some mj ->
  i < j ->
  classify (section_title text mi) = Some k ->
  classify (section_title text mj) = Some k ->
  (forall l ml, j < l -> heading_matches text !! l = Some ml ->
                classify (section_title text ml) <> Some k) ->
  secs !! k = Some (section_content text (heading_matches text) j mj).
Proof.
  rewrite extract_sections_base. intros [= <-] _ Hj _ _ Hcj Hlater.
  by apply heading_loop_last.
Qed.

(** Witness for C4: two "Discussion" headings; the second one's content wins. *)
Lemma extract_sections_last_wins_witness :
  extract_sections text_two_discussions ≫= (fun secs => secs !! "conclusion") = Some ".b" /\
  exists secs mi mj,
    extract_sections text_two_discussions = Some secs /\
    heading_matches text_two_discussions !! 0 = Some mi /\
    heading_matches text_two_discussions !! 1 = Some mj /\
    secs !! "conclusion" =
      Some (section_content text_two_discussions (heading_matches text_two_discussions) 1 mj).
Proof.
  split; [vm_compute; reflexivity|].
  destruct (extract_sections text_two_discussions) as [secs|] eqn:Es;
    [|vm_compute in Es; discriminate].
  destruct (heading_matches text_two_discussions !! 0) as [mi|] eqn:Ei;
    [|vm_compute in Ei; discriminate].
  destruct (heading_matches text_two_discussions !! 1) as [mj|] eqn:Ej;
    [|vm_compute in Ej; discriminate].
  exists secs, mi, mj. split; [done|]. split; [done|]. split; [done|].
  apply (extract_sections_last_wins text_two_discussions secs 0 1 mi mj "conclusion");
    try done; try lia.
  - vm_compute in Ei. injection Ei as <-. vm_compute. reflexivity.
  - vm_compute in Ej. injection Ej as <-. vm_compute. reflexivity.
  - intros l ml Hl Hml. vm_compute in Hml.
    destruct l as [|[|l]]; [lia|lia|discriminate].
Defined.

(** C7 (as stated, refuted): the stored content is not the raw slice
    between a heading and the next one; on [text_two_headings] the slice
    after "1. Introduction" is ".\n" but ["."] is stored. *)
Lemma section_content_not_raw_slice :
  ~ (forall text secs i m k,
       extract_sections text = Some secs ->
       heading_matches text !! i = Some m ->
       classify (section_title text m) = Some k ->
       (forall j m', i < j -> heading_matches text !! j = Some m' ->
                     classify (section_title text m') <> Some k) ->
       secs !! k = Some (slice (mend m) (end_index text (heading_matches text) i) text)).
Proof.
  intros H.
  destruct (heading_matches text_two_headings !! 0) as [m|] eqn:Em;
    [|vm_compute in Em; discriminate].
  pose proof (H text_two_headings _ 0 m "introduction"
                (extract_sections_base _) Em) as H'.
  vm_compute in Em. injection Em as <-.
  assert (Hc : classify (section_title text_two_headings
                 {| mstart := 0; mend := 16; mcaps := [(2, (3, 16)); (1, (0, 1))] |})
               = Some "introduction") by (vm_compute; reflexivity).
  specialize (H' Hc).
  assert (Hl : forall j m', 0 < j -> heading_matches text_two_headings !! j = Some m' ->
                 classify (section_title text_two_headings m') <> Some "introduction").
  { intros j m' Hj Hm'. vm_compute in Hm'.
    destruct j as [|[|j]]; [lia| |discriminate].
    injection Hm' as <-. vm_compute. discriminate. }
  specialize (H' Hl). vm_compute in H'. discriminate.
Qed.

(** C7 (amended): the content stored for a detected heading (the last one
    classified into its key) is the text between the end of its match and
    the start of the next heading match, or the end of the text, with
    leading and trailing whitespace removed ([.strip()]). *)
Theorem section_content_stripped_slice text secs i m k :
  extract_sections text = Some secs ->
  heading_matches text !! i = Some m ->
  classify (section_title text m) = Some k ->
  (forall j m', i < j -> heading_matches text !! j = Some m' ->
                classify (section_title text m') <> Some k) ->
  secs !! k = Some (strip (slice (mend m)
                              (match heading_matches text !! S i with
                               | Some m' => mstart m'
                               | None => String.length text
                               end) text)).
Proof.
  rewrite extract_sections_base. intros [= <-] Hm Hc Hlater.
  rewrite (heading_loop_last _ _ _ _ _ _ Hm Hc Hlater). reflexivity.
Qed.

Lemma section_content_stripped_slice_witness :
  exists secs m, extract_sections text_two_headings = Some secs /\
    heading_matches text_two_headings !! 0 = Some m /\
    secs !! "introduction" =
      Some (strip (slice (mend m)
                         (match heading_matches text_two_headings !! 1 with
                          | Some m' => mstart m'
                          | None => String.length text_two_headings
                          end) text_two_headings)).
Proof.
  destruct (extract_sections text_two_headings) as [secs|] eqn:Es;
    [|vm_compute in Es; discriminate].
  destruct (heading_matches text_two_headings !! 0) as [m|] eqn:Em;
    [|vm_compute in Em; discriminate].
  exists secs, m. split; [done|]. split; [done|].
  apply (section_content_stripped_slice text_two_headings secs 0 m "introduction" Es Em).
  - vm_compute in Em. injection Em as <-. vm_compute. reflexivity.
  - intros j m' Hj Hm'. vm_compute in Hm'.
    destruct j as [|[|j]]; [lia| |discriminate].
    injection Hm' as <-. vm_compute. discriminate.
Defined.

(* ------------------------------------------------------------------ *)
(** ** Claims on the report *)

(** C9: on the round-trip input, requesting [title] then [abstract]
    yields the title line "# Analysis of Paper Title" followed by the
    block "## Title\nPaper Title" and then "## Abstract\nThis is the
    abstract.", whatever the summarization pipeline (none is called). *)
Theorem report_round_trip p min_length max_length tr :
  main_report p c9_text ["title"; "abstract"] min_length max_length tr =
  Some ("# Analysis of Paper Title" +:+ nl +:+ nl
        +:+ "## Title" +:+ nl +:+ "Paper Title" +:+ nl +:+ nl
        +:+ "## Abstract" +:+ nl +:+ "This is the abstract." +:+ nl +:+ nl
        +:+ footer, tr).
Proof. vm_compute. reflexivity. Qed.

(** C10: [extract_sections] never fails (the split on newlines has a
    first line) and always stores [title], the trimmed first line; so a
    completed run's report starts with "# Analysis of " and that line,
    never with the "Unknown Paper" fallback. *)
Theorem report_title_line p text requested min_length max_length tr :
  (exists secs, extract_sections text = Some secs /\
                secs !! "title" = Some (strip (first_line text))) /\
  (forall out tr',
     main_report p text requested min_length max_length tr = Some (out, tr') ->
     exists body, out = "# Analysis of " +:+ strip (first_line text) +:+ nl +:+ nl +:+ body).
Proof.
  split.
  - eexists. split; [apply extract_sections_base|].
    rewrite heading_loop_not_key by decide_string. apply base_sections_title.
  - intros out tr'. unfold main_report, bind, lift, ret.
    rewrite extract_sections_base. cbv beta iota.
    rewrite heading_loop_not_key, base_sections_title by decide_string.
    destruct (process_sections _ _ _ _ _ _ _) as [[body ?]|]; [|discriminate].
    intros [= <- _]. exists (body +:+ footer). reflexivity.
Qed.

Lemma report_title_line_witness :
  exists out,
    main_report (inr (fun c _ _ => c)) c9_text ["title"] 40 150 [] = Some (out, []) /\
    exists body, out = "# Analysis of " +:+ strip (first_line c9_text) +:+ nl +:+ nl +:+ body.
Proof.
  destruct (main_report (inr (fun c _ _ => c)) c9_text ["title"] 40 150 [])
    as [[out tr']|] eqn:E; [|vm_compute in E; discriminate].
  assert (tr' = []) as -> by (vm_compute in E; injection E as _ <-; reflexivity).
  exists out. split; [done|].
  apply (proj2 (report_title_line (inr (fun c _ _ => c)) c9_text ["title"] 40 150 []) out []).
  exact E.
Defined.

(* ------------------------------------------------------------------ *)
(** ** Lemmas on the chunking of [summarize_text] *)

Lemma length_list_ascii s : String.length s = length (list_ascii_of_string s).
Proof. induction s; simpl; auto. Qed.

Lemma substring_list n m s :
  list_ascii_of_string (substring n m s) = take m (drop n (list_ascii_of_string s)).
Proof.
  revert n m. induction s as [|c s IH]; intros [|n] [|m]; simpl; auto;
    rewrite IH; reflexivity.
Qed.

Lemma chunks_fuel_nil {A} C fuel : chunks_fuel C fuel (@nil A) = [].
Proof. destruct fuel; reflexivity. Qed.

Lemma range_chunks {A} (l : list A) C fuel i :
  0 < C -> length l - i <= fuel ->
  map (fun j => take C (drop j l)) (range_from fuel i (length l) C) =
  chunks_fuel C fuel (drop i l).
Proof.
  intros HC. revert i. induction fuel as [|f IH]; intros i Hf; simpl; [done|].
  destruct (Nat.ltb_spec i (length l)) as [Hi|Hi].
  - destruct (drop i l) as [|x r] eqn:Ed.
    { apply (f_equal length) in Ed. rewrite length_drop in Ed. simpl in Ed. lia. }
    simpl. rewrite <- Ed, drop_drop, IH by lia. reflexivity.
  - rewrite drop_ge by lia. reflexivity.
Qed.

Lemma text_chunks_list text C :
  0 < C ->
  map list_ascii_of_string (text_chunks text C) =
  chunks_fuel C (length (list_ascii_of_string text)) (list_ascii_of_string text).
Proof.
  intros HC. unfold text_chunks, py_range. rewrite map_map.
  rewrite <- (drop_0 (list_ascii_of_string text)) at 2.
  rewrite <- range_chunks by lia. rewrite length_list_ascii, Nat.sub_0_r.
  apply map_ext. intros j. unfold slice.
  rewrite substring_list. f_equal. lia.
Qed.

Section Chunks.
Context {A : Type} (C : nat) (HC : 0 < C).

Lemma chunks_fuel_concat fuel (l : list A) :
  length l <= fuel -> mjoin (chunks_fuel C fuel l) = l.
Proof.
  revert l. induction fuel as [|f IH]; intros l Hl; simpl.
  - destruct l; [done|simpl in Hl; lia].
  - destruct l as [|x r]; [done|]. simpl.
    rewrite IH; [apply take_drop|]. rewrite length_drop. simpl in *. lia.
Qed.

Lemma chunks_fuel_length fuel (l : list A) :
  length l <= fuel -> length (chunks_fuel C fuel l) = (length l + C - 1) / C.
Proof.
  revert l. induction fuel as [|f IH]; intros l Hl; simpl.
  - destruct l; [|simpl in Hl; lia]. simpl. symmetry. apply Nat.div_small. lia.
  - destruct l as [|x r] eqn:El.
    { simpl. symmetry. apply Nat.div_small. lia. }
    rewrite <- El in *. simpl. rewrite IH by (rewrite length_drop; subst; simpl in *; lia).
    rewrite length_drop.
    assert (HL : 1 <= length l) by (subst; simpl; lia).
    replace (length l + C - 1) with ((length l - 1) + 1 * C) by lia.
    rewrite Nat.div_add by lia.
    destruct (Nat.le_gt_cases C (length l)).
    + replace (length l - C + C - 1) with (length l - 1) by lia. lia.
    + rewrite (Nat.div_small (length l - C + C - 1)) by lia.
      rewrite (Nat.div_small (length l - 1)) by lia. lia.
Qed.

Lemma chunks_fuel_sizes fuel (l : list A) c :
  c ∈ chunks_fuel C fuel l -> 0 < length c <= C.
Proof.
  revert l. induction fuel as [|f IH]; intros l Hc; simpl in Hc.
  - by apply elem_of_nil in Hc.
  - destruct l as [|x r]; [by apply elem_of_nil in Hc|].
    apply elem_of_cons in Hc as [->|Hc]; [|eauto].
    rewrite length_take. simpl. lia.
Qed.

Lemma chunks_fuel_full fuel (l : list A) i c :
  chunks_fuel C fuel l !! i = Some c -> S i < length (chunks_fuel C fuel l) ->
  length c = C.
Proof.
  revert l i. induction fuel as [|f IH]; intros l i Hc Hi; simpl in *; [done|].
  destruct l as [|x r]; [done|]. simpl in *.
  destruct i as [|i].
  - injection Hc as <-. rewrite length_take.
    destruct (Nat.le_gt_cases (length (x :: r)) C) as [Hle|Hgt]; [|simpl in *; lia].
    rewrite (drop_ge (x :: r)) in Hi by done. rewrite chunks_fuel_nil in Hi. simpl in Hi. lia.
  - apply (IH (drop C (x :: r)) i); [exact Hc|lia].
Qed.

End Chunks.

Lemma summarize_chunks_run summarizer min_length max_length cs parts tr :
  summarize_chunks summarizer min_length max_length cs parts tr =
  Some (join_space (rev parts ++ map (fun c => summarizer c max_length min_length) cs),
        (tr ++ map Summarize cs)%list).
Proof.
  revert parts tr. induction cs as [|c cs IH]; intros parts tr; simpl.
  - by rewrite !app_nil_r.
  - unfold bind, emit. rewrite IH. simpl. rewrite <- !app_assoc. reflexivity.
Qed.

Lemma list_ascii_app a b :
  list_ascii_of_string (a +:+ b) = (list_ascii_of_string a ++ list_ascii_of_string b)%list.
Proof. induction a as [|c a IH]; simpl; [done|]. by rewrite IH. Qed.

Lemma list_ascii_concat (cs : list string) :
  list_ascii_of_string (String.concat "" cs) = mjoin (map list_ascii_of_string cs).
Proof.
  induction cs as [|c cs IH]; [done|].
  destruct cs as [|c' cs].
  - simpl. by rewrite app_nil_r.
  - change (String.concat "" (c :: c' :: cs)) with (c +:+ "" +:+ String.concat "" (c' :: cs)).
    rewrite !list_ascii_app, IH. reflexivity.
Qed.

Lemma lookup_map_Some {A B} (f : A -> B) (l : list A) i x :
  l !! i = Some x -> map f l !! i = Some (f x).
Proof.
  revert i. induction l as [|y l IH]; intros [|i] H; simpl in *; try done.
  - by injection H as ->.
  - by apply IH.
Qed.

(** C5: with chunk size [C > 0], [summarize_text] cuts the text into
    ceil(L/C) consecutive pieces that concatenate back to the text, all
    of length [C] except possibly the last (each non-empty, at most [C]);
    once the pipeline is loaded it summarizes each piece on its own, in
    order, and joins the summaries with single spaces. *)
Theorem summarize_text_chunking p text min_length max_length C tr :
  0 < C ->
  length (text_chunks text C) = (String.length text + C - 1) / C /\
  String.concat "" (text_chunks text C) = text /\
  (forall i c, text_chunks text C !! i = Some c ->
               S i < length (text_chunks text C) -> String.length c = C) /\
  (forall c, c ∈ text_chunks text C -> 0 < String.length c <= C) /\
  (forall summarizer, p = inr summarizer ->
     summarize_text p text min_length max_length C tr =
     Some (join_space (map (fun c => summarizer c max_length min_length) (text_chunks text C)),
           (tr ++ Load :: map Summarize (text_chunks text C))%list)).
Proof.
  intros HC. pose proof (text_chunks_list text C HC) as HL.
  split; [|split; [|split; [|split]]].
  - rewrite <- (length_map list_ascii_of_string), HL, chunks_fuel_length by done.
    by rewrite length_list_ascii.
  - rewrite <- (string_of_list_ascii_of_string (String.concat "" _)), list_ascii_concat, HL.
    rewrite chunks_fuel_concat by done. apply string_of_list_ascii_of_string.
  - intros i c Hc Hi. rewrite length_list_ascii.
    apply chunks_fuel_full with (fuel := length (list_ascii_of_string text))
                                (l := list_ascii_of_string text) (i := i).
    + exact HC.
    + rewrite <- HL. by apply lookup_map_Some.
    + by rewrite <- HL, length_map.
  - intros c Hc. rewrite length_list_ascii.
    apply chunks_fuel_sizes with (fuel := length (list_ascii_of_string text))
                                 (l := list_ascii_of_string text); [exact HC|].
    rewrite <- HL. apply list_elem_of_In, in_map, list_elem_of_In, Hc.
  - intros summarizer ->. unfold summarize_text, bind, emit.
    destruct (Nat.eqb_spec C 0) as [->|_]; [lia|].
    rewrite summarize_chunks_run. simpl. by rewrite <- app_assoc.
Qed.

Lemma summarize_text_chunking_witness :
  text_chunks "abcdefg" 3 = ["abc"; "def"; "g"] /\
  summarize_text (inr (fun c _ _ => c)) "abcdefg" 40 150 3 [] =
    Some ("abc def g", [Load; Summarize "abc"; Summarize "def"; Summarize "g"]).
Proof.
  split; [reflexivity|].
  destruct (summarize_text_chunking (inr (fun c _ _ => c)) "abcdefg" 40 150 3 [])
    as (_ & _ & _ & _ & H); [lia|].
  rewrite (H _ eq_refl). reflexivity.
Defined.

(* ------------------------------------------------------------------ *)
(** ** Lemmas on the report loop *)

Lemma str_app_assoc a b c : (a +:+ b) +:+ c = a +:+ (b +:+ c).
Proof. induction a as [|x a IH]; [reflexivity|]. exact (f_equal (String x) IH). Qed.

Lemma count_loads_app tr1 tr2 :
  count_loads (tr1 ++ tr2)%list = count_loads tr1 + count_loads tr2.
Proof. unfold count_loads. by rewrite List.filter_app, length_app. Qed.

Lemma count_loads_summarize cs : count_loads (map Summarize cs) = 0.
Proof. induction cs; simpl; auto. Qed.

Lemma summarize_text_shape p text min_length max_length C tr :
  0 < C ->
  exists out rest,
    summarize_text p text min_length max_length C tr = Some (out, (tr ++ Load :: rest)%list) /\
    count_loads rest = 0 /\
    (forall summarizer, p = inr summarizer -> rest = map Summarize (text_chunks text C)).
Proof.
  intros HC. unfold summarize_text, bind, emit.
  destruct p as [e|summarizer].
  - eexists _, []. split; [reflexivity|]. split; [done|]. intros ? [=].
  - destruct (Nat.eqb_spec C 0) as [->|_]; [lia|].
    rewrite summarize_chunks_run. eexists _, _. split.
    + simpl. by rewrite <- app_assoc.
    + split; [apply count_loads_summarize|]. by intros ? [= ->].
Qed.

Lemma summarize_text_one_load p text min_length max_length C tr out tr' :
  0 < C ->
  summarize_text p text min_length max_length C tr = Some (out, tr') ->
  count_loads tr' = S (count_loads tr).
Proof.
  intros HC Hs.
  destruct (summarize_text_shape p text min_length max_length C tr HC)
    as (out' & rest & Hs' & Hrest & _).
  rewrite Hs' in Hs. injection Hs as _ <-.
  rewrite count_loads_app. unfold count_loads in *. simpl. lia.
Qed.

(** What one requested section does to the report: nothing (when its
    content is missing or empty and it is neither [summary] nor
    [contribution]), or it appends a block opening with its heading. *)
Lemma process_section_shape p secs min_length max_length r name tr r' tr' :
  process_section p secs min_length max_length r name tr = Some (r', tr') ->
  (falsy (secs !! name) && negb (in_list name ["summary"; "contribution"]) = true /\
   r' = r /\ tr' = tr) \/
  (falsy (secs !! name) && negb (in_list name ["summary"; "contribution"]) = false /\
   exists body, r' = r +:+ "## " +:+ capitalize (replace_char "_" " " name) +:+ nl +:+ body).
Proof.
  unfold process_section, bind, lift, ret, raise. intros H.
  destruct (falsy (secs !! name) && negb (in_list name ["summary"; "contribution"])).
  { injection H as <- <-. by left. }
  right. split; [done|].
  assert (Happ : forall x, (r +:+ "## " +:+ capitalize (replace_char "_" " " name) +:+ nl) +:+ x
                            = r +:+ "## " +:+ capitalize (replace_char "_" " " name) +:+ nl +:+ x).
  { intros x. rewrite !str_app_assoc. reflexivity. }
  destruct (in_list name ["title"; "abstract"; "references"]).
  { injection H as <- _. rewrite Happ. eauto. }
  destruct (String.eqb name "summary").
  { destruct (secs !! "raw_text"); [|discriminate].
    destruct (summarize_text _ _ _ _ _ _) as [[out ?]|]; [|discriminate].
    injection H as <- _. rewrite Happ. eauto. }
  destruct (String.eqb name "contribution").
  { destruct (negb _).
    - destruct (summarize_text _ _ _ _ _ _) as [[out ?]|]; [|discriminate].
      injection H as <- _. rewrite Happ. eauto.
    - injection H as <- _. rewrite Happ. eauto. }
  destruct (secs !! name); [|discriminate].
  destruct (summarize_text _ _ _ _ _ _) as [[out ?]|]; [|discriminate].
  injection H as <- _. rewrite Happ. eauto.
Qed.

Lemma process_section_loads p secs min_length max_length r name tr r' tr' :
  process_section p secs min_length max_length r name tr = Some (r', tr') ->
  count_loads tr' <= S (count_loads tr).
Proof.
  unfold process_section, bind, lift, ret, raise.
  assert (HS : forall text tr0 out tr1,
            summarize_text p text min_length max_length default_chunk tr0 = Some (out, tr1) ->
            count_loads tr1 = S (count_loads tr0)).
  { intros text tr0 out tr1. apply summarize_text_one_load. unfold default_chunk. lia. }
  destruct (_ && _). { intros [= _ <-]. lia. }
  destruct (in_list name _). { intros [= _ <-]. lia. }
  destruct (String.eqb name "summary").
  { destruct (secs !! "raw_text"); [|discriminate].
    destruct (summarize_text _ _ _ _ _ _) as [[out tr1]|] eqn:E; [|discriminate].
    intros [= _ <-]. apply HS in E. lia. }
  destruct (String.eqb name "contribution").
  { destruct (negb _).
    - destruct (summarize_text _ _ _ _ _ _) as [[out tr1]|] eqn:E; [|discriminate].
      intros [= _ <-]. apply HS in E. lia.
    - intros [= _ <-]. lia. }
  destruct (secs !! name); [|discriminate].
  destruct (summarize_text _ _ _ _ _ _) as [[out tr1]|] eqn:E; [|discriminate].
  intros [= _ <-]. apply HS in E. lia.
Qed.

(* ------------------------------------------------------------------ *)
(** ** Claims on the report assembler *)

(** C1 (as stated, refuted): a requested section that was not found gets
    no heading line at all: requesting [method] on the round-trip input
    (no method heading) yields a report with no "## " block. *)
Lemma missing_section_no_heading_line :
  exists out,
    main_report (inr (fun c _ _ => c)) c9_text ["method"] 40 150 [] = Some (out, []) /\
    out = "# Analysis of Paper Title" +:+ nl +:+ nl +:+ footer /\
    str_contains "## " out = false.
Proof.
  eexists. split; [vm_compute; reflexivity|]. split; vm_compute; reflexivity.
Qed.

(** C1 (amended): a requested section other than [summary] and
    [contribution] whose content is absent or empty adds nothing to the
    report (no heading, no body) and the loop goes on with the next one. *)
Theorem missing_section_skipped p secs min_length max_length r name rest tr :
  falsy (secs !! name) = true ->
  in_list name ["summary"; "contribution"] = false ->
  process_sections p secs min_length max_length r (name :: rest) tr =
  process_sections p secs min_length max_length r rest tr.
Proof.
  intros Hf Hn. simpl. unfold bind, process_section. rewrite Hf, Hn. reflexivity.
Qed.

Lemma missing_section_skipped_witness :
  process_sections (inr (fun c _ _ => c)) {[ "raw_text" := "x" ]} 40 150 "" ["method"; "title"] [] =
  process_sections (inr (fun c _ _ => c)) {[ "raw_text" := "x" ]} 40 150 "" ["title"] [].
Proof.
  apply missing_section_skipped; vm_compute; reflexivity.
Defined.

(** C2 (as stated, refuted): the pipeline is loaded again for every
    summarized section; a run asking for [summary] and [introduction]
    loads it twice. *)
Lemma model_loaded_twice_in_one_run :
  option_map (fun x => count_loads (snd x))
    (main_report (inr (fun c _ _ => c)) c9_text ["summary"; "introduction"] 40 150 []) =
  Some 2.
Proof. vm_compute. reflexivity. Qed.

(** C2 (amended): each call of [summarize_text] loads the pipeline
    exactly once, on entry (also when loading fails), and that one handle
    serves every chunk of the call; nothing is kept between calls, and
    each requested section triggers at most one load, so a run loads the
    model once per summarized section. *)
Theorem model_loaded_per_call p text min_length max_length C tr :
  0 < C ->
  (exists out rest,
     summarize_text p text min_length max_length C tr = Some (out, (tr ++ Load :: rest)%list) /\
     count_loads rest = 0 /\
     (forall summarizer, p = inr summarizer -> rest = map Summarize (text_chunks text C))) /\
  (forall secs r name tr0 r' tr1,
     process_section p secs min_length max_length r name tr0 = Some (r', tr1) ->
     count_loads tr1 <= S (count_loads tr0)).
Proof.
  intros HC. split.
  - by apply summarize_text_shape.
  - intros secs r name tr0 r' tr1. apply process_section_loads.
Qed.

Lemma model_loaded_per_call_witness :
  summarize_text (inr (fun c _ _ => c)) "abcd" 40 150 2 [] =
    Some ("ab cd", [Load; Summarize "ab"; Summarize "cd"]) /\
  exists out rest,
    summarize_text (inr (fun c _ _ => c)) "abcd" 40 150 2 [] = Some (out, ([] ++ Load :: rest)%list) /\
    count_loads rest = 0.
Proof.
  split; [reflexivity|].
  destruct (model_loaded_per_call (inr (fun c _ _ => c)) "abcd" 40 150 2 [])
    as [(out & rest & H1 & H2 & _) _]; [lia|].
  exists out, rest. split; assumption.
Defined.

(** C6 (as stated, refuted): with [all] requested, entries without
    content get no block: on the empty text only the Summary and
    Contribution blocks appear, not one block per entry. *)
Lemma all_request_missing_blocks :
  main_report (inr (fun c _ _ => c)) "" ["all"] 40 150 [] =
  Some ("# Analysis of " +:+ nl +:+ nl
        +:+ "## Summary" +:+ nl +:+ "" +:+ nl +:+ nl
        +:+ "## Contribution" +:+ nl +:+ contribution_fallback +:+ nl +:+ nl
        +:+ footer, [Load]).
Proof. vm_compute. reflexivity. Qed.

(** C6 (amended): if [all] occurs in the request, the whole request is
    replaced by the fixed list (which has no [references]) and the run is
    the run for that list, in that order; each entry then adds nothing
    when its content is absent or empty and it is neither [summary] nor
    [contribution], and otherwise one block opening with its heading. *)
Theorem all_request_expansion p text requested min_length max_length tr :
  in_list "all" requested = true ->
  expand_requested requested =
    ["title"; "abstract"; "summary"; "introduction"; "method"; "results";
     "conclusion"; "contribution"; "literature_review"] /\
  main_report p text requested min_length max_length tr =
    main_report p text all_sections min_length max_length tr /\
  ("references" ∉ expand_requested requested) /\
  (forall secs r name tr0 r' tr1,
     process_section p secs min_length max_length r name tr0 = Some (r', tr1) ->
     (falsy (secs !! name) && negb (in_list name ["summary"; "contribution"]) = true /\
      r' = r /\ tr1 = tr0) \/
     (falsy (secs !! name) && negb (in_list name ["summary"; "contribution"]) = false /\
      exists body, r' = r +:+ "## " +:+ capitalize (replace_char "_" " " name) +:+ nl +:+ body)).
Proof.
  intros Hall. unfold expand_requested. rewrite Hall.
  split; [reflexivity|]. split; [|split].
  - unfold main_report, expand_requested. rewrite Hall. reflexivity.
  - decide_string.
  - intros secs r name tr0 r' tr1. apply process_section_shape.
Qed.

Lemma all_request_expansion_witness :
  main_report (inr (fun c _ _ => c)) c9_text ["references"; "all"] 40 150 [] =
  main_report (inr (fun c _ _ => c)) c9_text all_sections 40 150 [].
Proof.
  apply (all_request_expansion (inr (fun c _ _ => c)) c9_text ["references"; "all"] 40 150 []).
  reflexivity.
Defined.

(** C8: for a [contribution] request with neither [abstract] nor
    [conclusion] in the map, the block is the heading and the fixed
    fallback message, and the trace is unchanged (no load, no
    summarization call); when the space-joined text of the two is not
    blank after stripping, that text is summarized and the summary is
    the body. *)
Theorem contribution_block p secs min_length max_length r tr :
  (secs !! "abstract" = None -> secs !! "conclusion" = None ->
   process_section p secs min_length max_length r "contribution" tr =
   Some ((r +:+ "## Contribution" +:+ nl) +:+ contribution_fallback +:+ nl +:+ nl, tr)) /\
  (strip (default "" (secs !! "abstract") +:+ " " +:+ default "" (secs !! "conclusion")) <> "" ->
   process_section p secs min_length max_length r "contribution" tr =
   bind (summarize_text p (default "" (secs !! "abstract") +:+ " "
                           +:+ default "" (secs !! "conclusion"))
                        min_length max_length default_chunk)
        (fun c => ret ((r +:+ "## Contribution" +:+ nl) +:+ c +:+ nl +:+ nl)) tr).
Proof.
  unfold process_section.
  change (negb (in_list "contribution" ["summary"; "contribution"])) with false.
  rewrite andb_false_r. split.
  - intros Ha Hc. rewrite Ha, Hc. reflexivity.
  - intros Hne. apply String.eqb_neq in Hne.
    change (in_list "contribution" ["title"; "abstract"; "references"]) with false.
    change (String.eqb "contribution" "summary") with false.
    change (String.eqb "contribution" "contribution") with true.
    cbv iota. rewrite Hne. reflexivity.
Qed.

Lemma contribution_block_witness :
  process_section (inr (fun c _ _ => c)) {[ "raw_text" := "x" ]} 40 150 "" "contribution" [] =
  Some (("" +:+ "## Contribution" +:+ nl) +:+ contribution_fallback +:+ nl +:+ nl, []) /\
  process_section (inr (fun c _ _ => c)) {[ "abstract" := "A" ]} 40 150 "" "contribution" [] =
  Some ("## Contribution" +:+ nl +:+ "A " +:+ nl +:+ nl, [Load; Summarize "A "]).
Proof.
  split.
  - apply (proj1 (contribution_block (inr (fun c _ _ => c)) {[ "raw_text" := "x" ]} 40 150 "" []));
      reflexivity.
  - rewrite (proj2 (contribution_block (inr (fun c _ _ => c)) {[ "abstract" := "A" ]} 40 150 "" [])).
    + vm_compute. reflexivity.
    + vm_compute. discriminate.
Defined.

(* ------------------------------------------------------------------ *)
(** ** Further properties of the summarizer adapter and the report loop *)

Lemma appends_only_ret {A} (x : A) : appends_only (ret x).
Proof. intros tr. unfold ret. by rewrite app_nil_r. Qed.

Lemma appends_only_raise {A} : appends_only (@raise A).
Proof. intros tr. reflexivity. Qed.

Lemma appends_only_emit e : appends_only (emit e).
Proof. intros tr. reflexivity. Qed.

Lemma appends_only_lift {A} (o : option A) : appends_only (lift o).
Proof. destruct o; [apply appends_only_ret|apply appends_only_raise]. Qed.

Lemma appends_only_bind {A B} (m : M A) (f : A -> M B) :
  appends_only m -> (forall x, appends_only (f x)) -> appends_only (bind m f).
Proof.
  intros Hm Hf tr. unfold bind. rewrite (Hm tr).
  destruct (m []) as [[x t]|]; [|done].
  rewrite (Hf x (tr ++ t)%list), (Hf x t).
  destruct (f x []) as [[y u]|]; [|done]. by rewrite app_assoc.
Qed.

Create HintDb appends.
#[local] Hint Resolve appends_only_ret appends_only_raise appends_only_emit
  appends_only_lift : appends.

Ltac appends_tac :=
  repeat first [ apply appends_only_bind; [|intros ?]
               | progress auto with appends
               | case_match ].

Lemma appends_only_summarize_chunks summarizer min_length max_length cs parts :
  appends_only (summarize_chunks summarizer min_length max_length cs parts).
Proof.
  revert parts. induction cs as [|c cs IH]; intros parts; simpl; appends_tac.
Qed.
#[local] Hint Resolve appends_only_summarize_chunks : appends.

Lemma appends_only_summarize_text p text min_length max_length C :
  appends_only (summarize_text p text min_length max_length C).
Proof. unfold summarize_text. appends_tac. Qed.
#[local] Hint Resolve appends_only_summarize_text : appends.

Lemma appends_only_process_section p secs min_length max_length r name :
  appends_only (process_section p secs min_length max_length r name).
Proof. unfold process_section. appends_tac. Qed.

Lemma str_app_nil_r a : a +:+ "" = a.
Proof. induction a as [|x a IH]; [reflexivity|]. exact (f_equal (String x) IH). Qed.

(** A block does not depend on the report built before it. *)
Lemma process_section_prefix p secs min_length max_length r name tr :
  process_section p secs min_length max_length r name tr =
  match process_section p secs min_length max_length "" name tr with
  | Some (b, t) => Some (r +:+ b, t)
  | None => None
  end.
Proof.
  unfold process_section, bind, lift, ret, raise.
  repeat case_match; simplify_eq; try done;
    rewrite ?str_app_assoc, ?str_app_nil_r; reflexivity.
Qed.

Lemma substring_0_full m s : String.length s <= m -> substring 0 m s = s.
Proof.
  revert m. induction s as [|c s IH]; intros [|m] Hm; simpl in *; try lia; [done|done|].
  rewrite IH by lia. reflexivity.
Qed.

Lemma text_chunks_short text C :
  0 < String.length text <= C -> text_chunks text C = [text].
Proof.
  intros Hl. unfold text_chunks, py_range. rewrite Nat.sub_0_r.
  destruct (String.length text) as [|n] eqn:E; [lia|]. simpl.
  destruct n as [|n]; simpl.
  - unfold slice. simpl. rewrite substring_0_full by lia. reflexivity.
  - replace (C <? S (S n)) with false by (symmetry; apply Nat.ltb_ge; lia).
    unfold slice. simpl. rewrite substring_0_full by lia. reflexivity.
Qed.

(** X1: with a loaded model, a text no longer than one chunk is
    summarized by at most one call on the whole text; the empty text
    makes no call at all (the model is still loaded). *)
Lemma summarize_text_short summarizer text min_length max_length C tr :
  0 < C -> String.length text <= C ->
  summarize_text (inr summarizer) text min_length max_length C tr =
  if String.eqb text "" then Some ("", (tr ++ [Load])%list)
  else Some (summarizer text max_length min_length, (tr ++ [Load; Summarize text])%list).
Proof.
  intros HC Hl. unfold summarize_text, bind, emit.
  destruct (Nat.eqb_spec C 0) as [->|_]; [lia|].
  rewrite summarize_chunks_run.
  destruct (String.eqb_spec text "") as [->|Hne].
  - simpl. by rewrite app_nil_r.
  - rewrite text_chunks_short.
    + simpl. by rewrite <- app_assoc.
    + split; [|done]. destruct text; [done|simpl; lia].
Qed.

Lemma summarize_text_short_witness :
  0 < 4 /\ String.length "abc" <= 4 /\
  summarize_text (inr (fun c _ _ => c +:+ "!")) "abc" 40 150 4 [] =
    Some ("abc!", [Load; Summarize "abc"]).
Proof.
  split; [lia|]. split; [simpl; lia|].
  rewrite (summarize_text_short (fun c _ _ => c +:+ "!") "abc" 40 150 4 []) by (simpl; lia).
  reflexivity.
Defined.

Ltac summarize_shapes :=
  repeat match goal with
  | |- context [summarize_text ?p ?t ?a ?b ?C ?tr] =>
      let o := fresh "o" in let rest := fresh "rest" in
      destruct (summarize_text_shape p t a b C tr ltac:(unfold default_chunk; lia))
        as (o & rest & -> & _)
  end.

Lemma process_section_total p secs min_length max_length r name tr raw :
  secs !! "raw_text" = Some raw ->
  exists r' tr', process_section p secs min_length max_length r name tr = Some (r', tr').
Proof.
  intros Hraw. unfold process_section, bind, lift, ret, raise.
  rewrite Hraw.
  destruct (secs !! name) as [c|] eqn:Hc; simpl;
  repeat match goal with |- context [if ?b then _ else _] => destruct b eqn:? end;
  summarize_shapes; eauto.
  all: unfold in_list in *; simpl in *;
       repeat match goal with H : String.eqb _ _ = _ |- _ => rewrite H in * end;
       simpl in *; discriminate.
Qed.

Lemma process_sections_total p secs min_length max_length names r tr raw :
  secs !! "raw_text" = Some raw ->
  exists r' tr', process_sections p secs min_length max_length r names tr = Some (r', tr').
Proof.
  intros Hraw. revert r tr. induction names as [|n ns IH]; intros r tr; simpl.
  - eauto.
  - unfold bind.
    destruct (process_section_total p secs min_length max_length r n tr raw Hraw)
      as (r1 & tr1 & ->).
    apply IH.
Qed.

Lemma extract_sections_title_raw text secs :
  extract_sections text = Some secs ->
  secs !! "title" = Some (strip (first_line text)) /\ secs !! "raw_text" = Some text.
Proof.
  rewrite extract_sections_base. intros [= <-].
  rewrite !heading_loop_not_key by (unfold heading_keys; set_solver).
  split; [apply base_sections_title|apply base_sections_raw].
Qed.

(** X3: [main_report] never raises, whatever the text and the requested
    sections, and the report is the title line, the blocks and the footer. *)
Theorem main_report_total_footer p text requested min_length max_length tr :
  exists body out tr',
    main_report p text requested min_length max_length tr = Some (out, tr') /\
    out = "# Analysis of " +:+ strip (first_line text) +:+ nl +:+ nl +:+ body +:+ footer.
Proof.
  destruct (extract_sections text) as [secs|] eqn:E.
  2:{ rewrite extract_sections_base in E. discriminate. }
  destruct (extract_sections_title_raw text secs E) as [Ht Hr].
  unfold main_report, bind, lift, ret. rewrite E.
  destruct (process_sections_total p secs min_length max_length
              (expand_requested requested) "" tr text Hr) as (r & tr' & ->).
  exists r. eexists _, tr'. split; [reflexivity|].
  rewrite Ht. reflexivity.
Qed.

Lemma process_section_failed_load e secs min_length max_length r name tr r' tr' :
  process_section (inl e) secs min_length max_length r name tr = Some (r', tr') ->
  tr' = tr \/ tr' = (tr ++ [Load])%list.
Proof.
  unfold process_section, summarize_text, bind, lift, ret, raise, emit. simpl.
  intros Hp. repeat case_match; simplify_eq; auto.
Qed.

Lemma process_sections_failed_load e secs min_length max_length names r tr r' tr' :
  process_sections (inl e) secs min_length max_length r names tr = Some (r', tr') ->
  exists n, tr' = (tr ++ repeat Load n)%list.
Proof.
  revert r tr. induction names as [|n ns IH]; intros r tr; simpl.
  - intros [= _ <-]. exists 0. by rewrite app_nil_r.
  - unfold bind.
    destruct (process_section _ _ _ _ r n tr) as [[r1 tr1]|] eqn:Hp; [|discriminate].
    intros H. destruct (IH r1 tr1 H) as [k ->].
    destruct (process_section_failed_load _ _ _ _ _ _ _ _ _ Hp) as [->| ->].
    + eauto.
    + exists (S k). by rewrite <- app_assoc.
Qed.

(** X2: when the model cannot be loaded, no chunk is ever sent to a
    summarizer: the run only records load attempts. *)
Theorem main_report_failed_load e text requested min_length max_length tr out tr' :
  main_report (inl e) text requested min_length max_length tr = Some (out, tr') ->
  exists n, tr' = (tr ++ repeat Load n)%list.
Proof.
  unfold main_report, bind, lift, ret.
  destruct (extract_sections text) as [secs|]; [|discriminate].
  destruct (process_sections _ _ _ _ _ _ tr) as [[r1 tr1]|] eqn:Hp; [|discriminate].
  intros [= _ <-]. eapply process_sections_failed_load, Hp.
Qed.

Lemma main_report_failed_load_witness :
  exists out tr',
    main_report (inl "no network") text_two_headings ["summary"; "method"] 40 150 [] =
      Some (out, tr') /\ exists n, tr' = ([] ++ repeat Load n)%list.
Proof.
  destruct (main_report (inl "no network") text_two_headings ["summary"; "method"] 40 150 [])
    as [[out tr']|] eqn:E; [|vm_compute in E; discriminate].
  exists out, tr'. split; [reflexivity|]. exact (main_report_failed_load _ _ _ _ _ _ _ _ E).
Defined.

Lemma process_sections_verbatim p secs min_length max_length names r tr :
  (forall n, n ∈ names -> n ∈ ["title"; "abstract"; "references"]) ->
  exists r', process_sections p secs min_length max_length r names tr = Some (r', tr).
Proof.
  revert r. induction names as [|n ns IH]; intros r Hn; simpl; [eauto|].
  assert (Hv : in_list n ["title"; "abstract"; "references"] = true).
  { unfold in_list. apply existsb_exists. exists n. split.
    - apply list_elem_of_In. apply Hn. set_solver.
    - apply String.eqb_refl. }
  unfold bind, process_section, ret. rewrite Hv.
  destruct (_ && _); apply IH; intros m Hm; apply Hn; set_solver.
Qed.

(** X4: a request made only of sections copied verbatim ([title],
    [abstract], [references]) never touches the model. *)
Theorem main_report_verbatim_no_model p text requested min_length max_length tr :
  (forall n, n ∈ requested -> n ∈ ["title"; "abstract"; "references"]) ->
  exists out, main_report p text requested min_length max_length tr = Some (out, tr).
Proof.
  intros Hreq. unfold main_report, bind, lift, ret. rewrite extract_sections_base.
  assert (Hall : expand_requested requested = requested).
  { unfold expand_requested, in_list.
    destruct (existsb _ _) eqn:E; [|done].
    apply existsb_exists in E as (x & Hx & Heq).
    apply String.eqb_eq in Heq as <-. apply list_elem_of_In, Hreq in Hx.
    exfalso. revert Hx. decide_string. }
  rewrite Hall.
  destruct (process_sections_verbatim p (heading_loop text (heading_matches text) (base_sections text))
              min_length max_length requested "" tr Hreq) as [r ->].
  eauto.
Qed.

Lemma main_report_verbatim_no_model_witness :
  (forall n, n ∈ ["references"; "title"] -> n ∈ ["title"; "abstract"; "references"]) /\
  exists out,
    main_report (inr (fun c _ _ => c)) text_two_headings ["references"; "title"] 40 150 [] =
      Some (out, []).
Proof.
  assert (H : forall n, n ∈ ["references"; "title"] -> n ∈ ["title"; "abstract"; "references"])
    by set_solver.
  split; [exact H|]. exact (main_report_verbatim_no_model _ _ _ _ _ _ H).
Defined.

Lemma appends_only_process_sections p secs min_length max_length r names :
  appends_only (process_sections p secs min_length max_length r names).
Proof.
  revert r. induction names as [|n ns IH]; intros r; simpl;
    [apply appends_only_ret|].
  apply appends_only_bind; [apply appends_only_process_section|done].
Qed.

Lemma process_sections_prefix p secs min_length max_length r names tr :
  process_sections p secs min_length max_length r names tr =
  match process_sections p secs min_length max_length "" names tr with
  | Some (b, t) => Some (r +:+ b, t)
  | None => None
  end.
Proof.
  revert r tr. induction names as [|n ns IH]; intros r tr; simpl.
  - unfold ret. by rewrite str_app_nil_r.
  - unfold bind. rewrite (process_section_prefix _ _ _ _ r).
    destruct (process_section _ _ _ _ "" n tr) as [[b t]|]; [|done].
    rewrite (IH (r +:+ b)), (IH b).
    destruct (process_sections _ _ _ _ "" ns t) as [[b' t']|]; [|done].
    by rewrite str_app_assoc.
Qed.

(** X5: requests compose: the report for [l1 ++ l2] is the report for [l1]
    followed by the report for [l2], each built on its own, and the
    model is used for [l1] and then for [l2]. *)
Theorem process_sections_app p secs min_length max_length r l1 l2 tr :
  process_sections p secs min_length max_length r (l1 ++ l2)%list tr =
  match process_sections p secs min_length max_length "" l1 [],
        process_sections p secs min_length max_length "" l2 [] with
  | Some (b1, t1), Some (b2, t2) => Some (r +:+ b1 +:+ b2, (tr ++ t1 ++ t2)%list)
  | _, _ => None
  end.
Proof.
  assert (Hc : forall r0 tr0,
    process_sections p secs min_length max_length r0 (l1 ++ l2)%list tr0 =
    bind (process_sections p secs min_length max_length r0 l1)
         (fun r1 => process_sections p secs min_length max_length r1 l2) tr0).
  { induction l1 as [|n ns IH]; intros r0 tr0; simpl; [reflexivity|].
    unfold bind. destruct (process_section _ _ _ _ r0 n tr0) as [[r1 t1]|]; [|done].
    apply IH. }
  rewrite Hc. unfold bind.
  rewrite process_sections_prefix, appends_only_process_sections.
  destruct (process_sections _ _ _ _ "" l1 []) as [[b1 t1]|]; [|done].
  rewrite process_sections_prefix, appends_only_process_sections.
  destruct (process_sections _ _ _ _ "" l2 []) as [[b2 t2]|]; [|done].
  by rewrite str_app_assoc, app_assoc.
Qed.

(* ------------------------------------------------------------------ *)
(** ** Stripped values and the title line *)

Lemma lstrip_list s : list_ascii_of_string (lstrip s) = drop_spaces (list_ascii_of_string s).
Proof. induction s as [|c s IH]; simpl; [done|]. by destruct (is_space c). Qed.

Lemma rev_str_list s : list_ascii_of_string (rev_str s) = rev (list_ascii_of_string s).
Proof. unfold rev_str. apply list_ascii_of_string_of_list_ascii. Qed.

Lemma strip_list s :
  list_ascii_of_string (strip s) =
  rev (drop_spaces (rev (drop_spaces (list_ascii_of_string s)))).
Proof. unfold strip. by rewrite rev_str_list, lstrip_list, rev_str_list, lstrip_list. Qed.

Lemma drop_spaces_idem l : drop_spaces (drop_spaces l) = drop_spaces l.
Proof.
  induction l as [|c l IH]; simpl; [done|].
  destruct (is_space c) eqn:Hc; [done|]. simpl. by rewrite Hc.
Qed.

Lemma drop_spaces_snoc l c :
  is_space c = false -> drop_spaces (l ++ [c])%list = (drop_spaces l ++ [c])%list.
Proof.
  intros Hc. induction l as [|d l IH]; simpl; [by rewrite Hc|].
  by destruct (is_space d).
Qed.

Lemma drop_spaces_head l :
  drop_spaces l = [] \/ exists c r, drop_spaces l = c :: r /\ is_space c = false.
Proof.
  induction l as [|c l IH]; simpl; [auto|].
  destruct (is_space c) eqn:Hc; [done|eauto].
Qed.

Lemma drop_spaces_trim_front c r :
  is_space c = false ->
  drop_spaces (rev (drop_spaces (rev (c :: r)))) = rev (drop_spaces (rev (c :: r))).
Proof.
  intros Hc. simpl. rewrite drop_spaces_snoc, rev_app_distr by done. simpl. by rewrite Hc.
Qed.

Lemma strip_idem s : strip (strip s) = strip s.
Proof.
  rewrite <- (string_of_list_ascii_of_string (strip (strip s))),
    <- (string_of_list_ascii_of_string (strip s)).
  f_equal. rewrite !strip_list, list_ascii_of_string_of_list_ascii.
  remember (drop_spaces (list_ascii_of_string s)) as l.
  assert (Hl : drop_spaces l = [] \/ exists c r, l = c :: r /\ is_space c = false).
  { subst l. rewrite drop_spaces_idem. destruct (drop_spaces_head (list_ascii_of_string s)) as [->|(c & r & -> & Hc)]; eauto. }
  destruct Hl as [Hn|(c & r & -> & Hc)].
  - assert (l = []) as ->. { subst l. by rewrite drop_spaces_idem in Hn. }
    reflexivity.
  - rewrite drop_spaces_trim_front by done. rewrite rev_involutive, drop_spaces_idem. reflexivity.
Qed.

Lemma heading_loop_values text ms (P : string -> Prop) secs :
  (forall k v, k <> "raw_text" -> secs !! k = Some v -> P v) ->
  (forall i m, P (section_content text ms i m)) ->
  forall k v, k <> "raw_text" -> heading_loop text ms secs !! k = Some v -> P v.
Proof.
  intros Hs Hc. unfold heading_loop. generalize (enumerate ms) as L.
  intros L. revert secs Hs. induction L as [|[i m] L IH]; intros secs Hs; simpl; [done|].
  apply IH. intros k v Hk. unfold heading_step.
  destruct (classify (section_title text m)); [|by apply Hs].
  intros Hv. apply lookup_insert_Some in Hv as [[_ <-]|[_ Hv]]; eauto.
Qed.

(** X6: every value the splitter stores, apart from [raw_text], is already
    stripped: stripping it again changes nothing. *)
Theorem extract_sections_values_stripped text secs k v :
  extract_sections text = Some secs ->
  secs !! k = Some v -> k <> "raw_text" ->
  strip v = v.
Proof.
  rewrite extract_sections_base. intros [= <-] Hv Hk.
  revert k v Hk Hv. apply heading_loop_values.
  - intros k v Hk. unfold base_sections.
    destruct (search text abstract_re);
      intros Hv; repeat (apply lookup_insert_Some in Hv as [[_ <-]|[_ Hv]]; [apply strip_idem|]);
      apply lookup_singleton_Some in Hv as [<- _]; done.
  - intros i m. apply strip_idem.
Qed.

Lemma extract_sections_values_stripped_witness :
  exists secs, extract_sections text_two_headings = Some secs /\
    secs !! "method" = Some "." /\ "method" <> "raw_text" /\ strip "." = ".".
Proof.
  destruct (extract_sections text_two_headings) as [secs|] eqn:E; [|vm_compute in E; discriminate].
  assert (Hm : secs !! "method" = Some ".").
  { rewrite extract_sections_base in E. injection E as <-. vm_compute. reflexivity. }
  exists secs. split; [reflexivity|]. split; [exact Hm|].
  assert (Hk : "method" <> "raw_text") by decide_string.
  split; [exact Hk|]. exact (extract_sections_values_stripped _ _ _ _ E Hm Hk).
Defined.


Lemma string_of_list_ascii_app (a b : list ascii) :
  string_of_list_ascii (a ++ b)%list = string_of_list_ascii a +:+ string_of_list_ascii b.
Proof. induction a as [|c a IH]; simpl; [done|]. by rewrite IH. Qed.

Lemma split_nl_head s :
  exists l ls rest, split_nl s = l :: ls /\
    list_ascii_of_string s = (list_ascii_of_string l ++ rest)%list /\
    "010"%char ∉ list_ascii_of_string l.
Proof.
  induction s as [|c s IH]; simpl.
  - exists "", [], []. split; [done|]. split; [done|]. set_solver.
  - destruct (Ascii.eqb_spec c "010"%char) as [->|Hc].
    + exists "", (split_nl s), ("010"%char :: list_ascii_of_string s).
      split; [done|]. split; [done|]. set_solver.
    + destruct IH as (l & ls & rest & -> & Hs & Hl).
      exists (String c l), ls, rest. split; [done|]. split; [simpl; by rewrite Hs|].
      simpl. rewrite elem_of_cons. intros [H|H]; [congruence|done].
Qed.

Lemma drop_spaces_suffix l : exists p, l = (p ++ drop_spaces l)%list.
Proof.
  induction l as [|c l IH]; simpl; [by exists []|].
  destruct (is_space c); [|by exists []].
  destruct IH as [p Hp]. exists (c :: p). simpl. by rewrite <- Hp.
Qed.

Lemma strip_infix s :
  exists p q, list_ascii_of_string s = (p ++ list_ascii_of_string (strip s) ++ q)%list.
Proof.
  rewrite strip_list.
  destruct (drop_spaces_suffix (list_ascii_of_string s)) as [p Hp].
  set (x := drop_spaces (list_ascii_of_string s)) in *.
  destruct (drop_spaces_suffix (rev x)) as [q Hq].
  exists p, (rev q). rewrite Hp at 1. f_equal.
  rewrite <- (rev_involutive x) at 1. rewrite Hq at 1.
  by rewrite rev_app_distr.
Qed.

(** X7: the title is a piece of the input text holding no newline. *)
Theorem extract_sections_title_one_line text secs t :
  extract_sections text = Some secs -> secs !! "title" = Some t ->
  (exists pre post, text = pre +:+ t +:+ post) /\
  "010"%char ∉ list_ascii_of_string t.
Proof.
  intros E Ht. destruct (extract_sections_title_raw text secs E) as [Ht' _].
  rewrite Ht' in Ht. injection Ht as <-.
  unfold first_line. destruct (split_nl_head text) as (l & ls & rest & -> & Hs & Hl). simpl.
  destruct (strip_infix l) as (p & q & Hpq). split.
  - exists (string_of_list_ascii p), (string_of_list_ascii (q ++ rest)).
    rewrite <- (string_of_list_ascii_of_string text), Hs, Hpq.
    rewrite <- (string_of_list_ascii_of_string (strip l)) at 2.
    rewrite <- !string_of_list_ascii_app. by rewrite <- !app_assoc.
  - rewrite Hpq in Hl. set_solver.
Qed.

(* ------------------------------------------------------------------ *)
(** ** The order of the heading matches *)

Section Engine.
Variable s : string.

Lemma get_lt i c : String.get i s = Some c -> i < String.length s.
Proof.
  revert i. induction s as [|d r IH]; intros [|i]; simpl; try discriminate; [lia|].
  intros H. apply IH in H. lia.
Qed.

(** The matcher only moves forward and stays inside the subject. *)
Lemma mt_forward r : forall i cs k x,
  i <= String.length s -> mt s r i cs k = Some x ->
  exists j cs', i <= j <= String.length s /\ k j cs' = Some x.
Proof.
  induction r as [|p| |a IHa b IHb|a IHa b IHb|a IHa|a IHa|n a IHa];
    intros i cs k x Hi H; [simpl in H..|idtac|idtac|simpl in H].
  - exists i, cs. split; [lia|done].
  - destruct (String.get i s) as [c|] eqn:Hg; [|done].
    destruct (p c); [|done]. apply get_lt in Hg.
    exists (S i), cs. split; [lia|done].
  - destruct (bol_at s i); [|done]. exists i, cs. split; [lia|done].
  - destruct (IHa _ _ _ _ Hi H) as (j & cs' & Hj & Hk).
    destruct (IHb j _ _ _ ltac:(lia) Hk) as (j' & cs'' & Hj' & Hk').
    exists j', cs''. split; [lia|done].
  - destruct (mt s a i cs k) eqn:Ha.
    + injection H as <-. by eapply IHa.
    + by eapply IHb.
  - change (mt s (StarG a) i cs k) with
      ((fix loop (n i : nat) (cs : caps) {struct n} : result :=
         match n with
         | O => k i cs
         | S n' =>
             match mt s a i cs (fun j cs' => if i <? j then loop n' j cs' else None) with
             | Some x => Some x
             | None => k i cs
             end
         end) (S (String.length s)) i cs) in H.
    revert i cs Hi H. generalize (S (String.length s)) as n.
    induction n as [|n IHn]; intros i cs Hi H.
    + exists i, cs. split; [lia|done].
    + destruct (mt s a i cs _) eqn:Ha.
      * injection H as <-.
        destruct (IHa _ _ _ _ Hi Ha) as (j & cs' & Hj & Hk).
        destruct (Nat.ltb_spec i j); [|done].
        destruct (IHn j _ ltac:(lia) Hk) as (j' & cs'' & Hj' & Hk').
        exists j', cs''. split; [lia|done].
      * exists i, cs. split; [lia|done].
  - change (mt s (StarL a) i cs k) with
      ((fix loop (n i : nat) (cs : caps) {struct n} : result :=
         match n with
         | O => k i cs
         | S n' =>
             match k i cs with
             | Some x => Some x
             | None => mt s a i cs (fun j cs' => if i <? j then loop n' j cs' else None)
             end
         end) (S (String.length s)) i cs) in H.
    revert i cs Hi H. generalize (S (String.length s)) as n.
    induction n as [|n IHn]; intros i cs Hi H.
    + exists i, cs. split; [lia|done].
    + destruct (k i cs) eqn:Hk.
      * injection H as <-. exists i, cs. split; [lia|done].
      * destruct (IHa _ _ _ _ Hi H) as (j & cs' & Hj & Hk').
        destruct (Nat.ltb_spec i j); [|done].
        destruct (IHn j _ ltac:(lia) Hk') as (j' & cs'' & Hj' & Hk'').
        exists j', cs''. split; [lia|done].
  - destruct (IHa _ _ _ _ Hi H) as (j & cs' & Hj & Hk). eauto.
Qed.

Lemma match_at_forward r i j cs :
  i <= String.length s -> match_at s r i = Some (j, cs) -> i <= j <= String.length s.
Proof.
  intros Hi H. destruct (mt_forward r i [] _ _ Hi H) as (j' & cs' & Hj & [= <- _]). done.
Qed.

Lemma search_from_spec fuel r pos m :
  pos <= String.length s -> search_from s fuel r pos = Some m ->
  pos <= mstart m <= String.length s /\ match_at s r (mstart m) = Some (mend m, mcaps m).
Proof.
  revert pos. induction fuel as [|f IH]; intros pos Hp H; simpl in H; [done|].
  destruct (match_at s r pos) as [[j cs]|] eqn:Hm.
  - injection H as <-. simpl. split; [lia|done].
  - destruct (Nat.ltb_spec pos (String.length s)); [|done].
    destruct (IH (S pos) ltac:(lia) H) as [Hs Hm']. split; [lia|done].
Qed.

Lemma matches_chain_mono p p' ms : p <= p' -> matches_chain p' ms -> matches_chain p ms.
Proof. destruct ms; simpl; [done|]. intros ? (? & ? & ?). split; [lia|done]. Qed.

Lemma finditer_from_spec fuel r pos :
  matches_chain pos (finditer_from s fuel r pos) /\
  forall m, m ∈ finditer_from s fuel r pos ->
    match_at s r (mstart m) = Some (mend m, mcaps m) /\ mend m <= String.length s.
Proof.
  revert pos. induction fuel as [|f IH]; intros pos; cbn [finditer_from].
  { split; [done|]. intros m Hm. by apply elem_of_nil in Hm. }
  destruct (Nat.ltb_spec (String.length s) pos).
  { split; [done|]. intros m Hm. by apply elem_of_nil in Hm. }
  destruct (search_from s (S (String.length s)) r pos) as [m|] eqn:Hs.
  2:{ split; [done|]. intros m Hm. by apply elem_of_nil in Hm. }
  destruct (search_from_spec _ r pos m ltac:(lia) Hs) as [Hst Hm].
  pose proof (match_at_forward r (mstart m) _ _ ltac:(lia) Hm) as He.
  destruct (IH (if mend m =? mstart m then S (mend m) else mend m)) as [Hc Hall].
  split.
  - simpl. split; [lia|]. split; [lia|].
    eapply matches_chain_mono, Hc. case_match; lia.
  - intros m' Hm'. apply elem_of_cons in Hm' as [->|Hm']; [split; [done|lia]|auto].
Qed.

End Engine.

Lemma matches_chain_lookup p ms i m m' :
  matches_chain p ms -> ms !! i = Some m -> ms !! S i = Some m' -> mend m <= mstart m'.
Proof.
  revert p i. induction ms as [|m0 ms IH]; intros p i Hc Hi Hi'; [done|].
  destruct Hc as (_ & _ & Hc). destruct i as [|i]; simpl in *.
  - injection Hi as <-. destruct ms as [|m1 ms]; [done|]. injection Hi' as <-.
    by destruct Hc as (? & _).
  - eauto.
Qed.

Lemma matches_chain_start p ms i m :
  matches_chain p ms -> ms !! i = Some m -> p <= mstart m /\ mstart m <= mend m.
Proof.
  revert p i. induction ms as [|m0 ms IH]; intros p i Hc Hi; [done|].
  destruct Hc as (? & ? & Hc). destruct i as [|i]; simpl in *.
  - injection Hi as <-. lia.
  - destruct (IH _ _ Hc Hi). lia.
Qed.

Lemma heading_re_bol text i j cs : match_at text heading_re i = Some (j, cs) -> bol_at text i = true.
Proof. unfold match_at, heading_re. simpl. by destruct (bol_at text i). Qed.

(** X8: every heading the splitter finds starts at the beginning of a line,
    and the text it takes as that section's content, from the end of the
    heading to the start of the next one (or to the end of the text), is
    a well-formed range of the text: headings are in order and never
    overlap. *)
Theorem heading_matches_spans text i m :
  heading_matches text !! i = Some m ->
  bol_at text (mstart m) = true /\
  mstart m <= mend m <= end_index text (heading_matches text) i /\
  end_index text (heading_matches text) i <= String.length text.
Proof.
  intros Hm. unfold heading_matches, finditer in *.
  destruct (finditer_from_spec text (S (S (String.length text))) heading_re 0) as [Hc Hall].
  destruct (Hall m (list_elem_of_lookup_2 _ _ _ Hm)) as [Hmatch Hend].
  destruct (matches_chain_start _ _ _ _ Hc Hm) as [_ Hse].
  split; [eapply heading_re_bol, Hmatch|].
  unfold end_index. destruct (_ !! S i) as [m'|] eqn:Hm'.
  - pose proof (matches_chain_lookup _ _ _ _ _ Hc Hm Hm') as Hle.
    destruct (Hall m' (list_elem_of_lookup_2 _ _ _ Hm')) as [Hmatch' Hend'].
    destruct (matches_chain_start _ _ _ _ Hc Hm') as [_ Hse'].
    split; [lia|]. lia.
  - split; lia.
Qed.

Lemma extract_sections_title_one_line_witness :
  exists secs, extract_sections text_two_headings = Some secs /\
    secs !! "title" = Some "1. Introduction" /\
    (exists pre post, text_two_headings = pre +:+ "1. Introduction" +:+ post) /\
    "010"%char ∉ list_ascii_of_string "1. Introduction".
Proof.
  destruct (extract_sections text_two_headings) as [secs|] eqn:E; [|vm_compute in E; discriminate].
  assert (Ht : secs !! "title" = Some "1. Introduction").
  { rewrite extract_sections_base in E. injection E as <-. vm_compute. reflexivity. }
  exists secs. split; [reflexivity|]. split; [exact Ht|].
  exact (extract_sections_title_one_line _ _ _ E Ht).
Defined.

Lemma heading_matches_spans_witness :
  exists m, heading_matches text_two_headings !! 1 = Some m /\
    bol_at text_two_headings (mstart m) = true /\
    mstart m <= mend m <= end_index text_two_headings (heading_matches text_two_headings) 1 /\
    end_index text_two_headings (heading_matches text_two_headings) 1 <= String.length text_two_headings.
Proof.
  destruct (heading_matches text_two_headings !! 1) as [m|] eqn:E; [|vm_compute in E; discriminate].
  exists m. split; [reflexivity|]. exact (heading_matches_spans _ _ _ E).
Defined.

(* ------------------------------------------------------------------ *)
(** ** The whole of [main] *)


